(** * mlir-auto-init: the static-initialisation shim of the MLIR overlay

    Source: [llvm-project-overlay/mlir/mlir-auto-init.cpp].

    <<
    namespace mlir {
    static bool auto_init = []() {
      registerAllDialects();
      registerAllPasses();

      return true;
    }();
    } // namespace mlir
    >>

    The two entry points come from [mlir/InitAllDialects.h] and
    [mlir/InitAllPasses.h], headers of the framework that are not part of
    this file.  They are therefore taken as parameters of the development
    (class [Framework]); what the shim guarantees about the registries is
    stated relative to the contract of those entry points. *)

From stdpp Require Import gmap strings list.

Module mlir.

(** ** The linked framework, as the shim sees it *)

(** The names the shim calls. *)
Inductive Callee : Type :=
  | registerAllDialects
  | registerAllPasses.

Definition Callee_eqb (f g : Callee) : bool :=
  match f, g with
  | registerAllDialects, registerAllDialects => true
  | registerAllPasses, registerAllPasses => true
  | _, _ => false
  end.

(** Types fixed by the framework headers. *)
Class Types : Type := {
  Value : Type;           (* what a call site may pass as an argument *)
  Status : Type;          (* what an entry point hands back to its caller *)
  Ambient : Type;         (* every piece of process state but the registries *)
  DialectFactory : Type;
  PassFactory : Type
}.

(** Modelled from the spec: the registry types live in framework
    headers that are not part of this file; the data model describes
    each registry as a process-wide mapping from identifier to factory.
    [Globals] is the state any code of the process can reach: the two
    registries and everything else. *)
Record Globals `{Types} : Type := mkGlobals {
  dialectRegistry : gmap string DialectFactory;
  passRegistry : gmap string PassFactory;
  ambient : Ambient
}.

(** The framework proper: the behaviour of the entry points and the
    catalogues of built-ins of that version.  An entry point either
    returns (a status and the new globals) or takes the process down
    ([None]: an uncaught exception, [abort], a fatal-error report). *)
Class Framework `{Types} : Type := {
  extern : Callee -> list Value -> Globals -> option (Status * Globals);
  allDialects : gmap string DialectFactory;
  allPasses : gmap string PassFactory
}.

(** ** Process state *)

(** One call made by the code of this file. *)
Record Call `{Types} : Type := mkCall {
  callee : Callee;
  arguments : list Value
}.

(** One access to the file-scoped flag. *)
Inductive Access : Type :=
  | FlagWrite (b : bool)
  | FlagRead.

Inductive Phase : Type :=
  | Startup   (* dynamic initialisation of statics, before [main] *)
  | Main.     (* [main] has been entered *)

(** [auto_init] is [None] until its dynamic initialiser has completed.
    [calls] and [flag_accesses] are history variables: they record what
    the code of this file did, in order, and influence nothing. *)
Record Process `{Types} : Type := mkProcess {
  globals : Globals;
  auto_init : option bool;
  phase : Phase;
  calls : list Call;
  flag_accesses : list Access
}.

Section Model.
Context `{F : Framework}.

Definition set_globals (g : Globals) (p : Process) : Process :=
  mkProcess _ g (auto_init p) (phase p) (calls p) (flag_accesses p).

Definition log_call (c : Call) (p : Process) : Process :=
  mkProcess _ (globals p) (auto_init p) (phase p) (calls p ++ [c])
            (flag_accesses p).

Definition set_phase (ph : Phase) (p : Process) : Process :=
  mkProcess _ (globals p) (auto_init p) ph (calls p) (flag_accesses p).

(** *** A state monad with abort *)

Inductive Outcome (A : Type) : Type :=
  | Done (a : A) (p : Process)
  | Aborted (p : Process).
Global Arguments Done {A} a p.
Global Arguments Aborted {A} p.

Definition M (A : Type) : Type := Process -> Outcome A.

Definition ret {A} (a : A) : M A := fun p => Done a p.

Definition bind {A B} (c : M A) (k : A -> M B) : M B :=
  fun p =>
    match c p with
    | Done a p' => k a p'
    | Aborted p' => Aborted p'
    end.

Definition final {A} (o : Outcome A) : Process :=
  match o with
  | Done _ p => p
  | Aborted p => p
  end.

Definition completed {A} (o : Outcome A) : bool :=
  match o with
  | Done _ _ => true
  | Aborted _ => false
  end.

(** A call statement [f(args);]: the call is made, the callee runs on
    the globals, and control comes back with its status, unless the
    callee takes the process down. *)
Definition call (f : Callee) (args : list Value) : M Status :=
  fun p =>
    let p1 := log_call (mkCall _ f args) p in
    match extern f args (globals p) with
    | Some (r, g') => Done r (set_globals g' p1)
    | None => Aborted p1
    end.

(** The store that ends the initialisation of the flag. *)
Definition store_auto_init (b : bool) : M unit :=
  fun p =>
    Done tt (mkProcess _ (globals p) (Some b) (phase p) (calls p)
                       (flag_accesses p ++ [FlagWrite b])).
End Model.

Notation "x <- c ;;; k" := (bind c (fun x => k))
  (at level 100, c at next level, k at level 200, right associativity).
Notation "c ;;; k" := (bind c (fun _ => k))
  (at level 100, k at level 200, right associativity).

Section Shim.
Context `{F : Framework}.

(** *** The code of the file *)

(** The body of the lambda: two expression statements whose values are
    discarded, then [return true]. *)
Definition auto_init_lambda : M bool :=
  call registerAllDialects [] ;;;
  call registerAllPasses [] ;;;
  ret true.

(** [static bool auto_init = <lambda>();] *)
Definition static_init : M unit :=
  b <- auto_init_lambda ;;;
  store_auto_init b.

(** *** Life cycle of a process that links the file once *)

(** What can happen next: the start-up code runs the initialiser of
    this file; code outside this file runs (initialisers of other
    translation units, in an order the language leaves open, and later
    the program itself); [main] is entered.  [auto_init] has internal
    linkage and the file hands out no reference to it, so code outside
    the file acts on the globals only. *)
Inductive Label : Type :=
  | RunStaticInit
  | Foreign (k : Globals -> Globals)
  | EnterMain.

Definition is_RunStaticInit (l : Label) : bool :=
  match l with
  | RunStaticInit => true
  | _ => false
  end.

(** Modelled from the spec: the start-up code that decides when the
    initialiser runs is not part of this file.  The spec has the flag
    "created and initialized exactly once per process, before main":
    here [RunStaticInit] is enabled only during start-up and while the
    flag is uninitialised, and [EnterMain] only once it is
    initialised.  The file itself tests neither the flag nor the
    phase; [step_free] below is the same system without these
    rules. *)
Definition step (l : Label) (p : Process) : option Process :=
  match l with
  | RunStaticInit =>
      match phase p, auto_init p with
      | Startup, None =>
          match static_init p with
          | Done _ p' => Some p'
          | Aborted _ => None
          end
      | _, _ => None
      end
  | Foreign k => Some (set_globals (k (globals p)) p)
  | EnterMain =>
      match phase p, auto_init p with
      | Startup, Some _ => Some (set_phase Main p)
      | _, _ => None
      end
  end.

Fixpoint run (ls : list Label) (p : Process) : option Process :=
  match ls with
  | [] => Some p
  | l :: ls' =>
      match step l p with
      | Some p' => run ls' p'
      | None => None
      end
  end.

(** How often a schedule runs the initialiser of this file. *)
Fixpoint init_count (ls : list Label) : nat :=
  match ls with
  | [] => 0
  | l :: ls' => (if is_RunStaticInit l then 1 else 0) + init_count ls'
  end.

(** The process image right after loading. *)
Definition boot (g : Globals) : Process :=
  mkProcess _ g None Startup [] [].

(** The two states of the shim. *)
Inductive ShimState : Type :=
  | Unregistered
  | Registered.

Definition shim_state (p : Process) : ShimState :=
  match auto_init p with
  | None => Unregistered
  | Some _ => Registered
  end.

(** How often the flag has been initialised. *)
Definition flag_count (p : Process) : nat :=
  match auto_init p with
  | None => 0
  | Some _ => 1
  end.

(** What holds of every state a process can be in: the flag and the
    two histories move together, and [main] is not entered before
    the flag is initialised. *)
Definition lifecycle_invariant (p : Process) : Prop :=
  match auto_init p with
  | None => phase p = Startup /\ calls p = [] /\ flag_accesses p = []
  | Some b =>
      b = true /\
      calls p = [mkCall _ registerAllDialects [];
                 mkCall _ registerAllPasses []] /\
      flag_accesses p = [FlagWrite true]
  end.

(** *** The life cycle as the file alone settles it *)

(** The code of the file contains no test of the flag or of the phase:
    whenever the initialiser is scheduled it runs, whether the flag is
    set or not and whether [main] has been entered or not (an object
    loaded late runs its initialisers then).  A run that is taken down
    ends the process. *)
Definition step_free (l : Label) (p : Process) : option Process :=
  match l with
  | RunStaticInit =>
      match static_init p with
      | Done _ p' => Some p'
      | Aborted _ => None
      end
  | Foreign k => Some (set_globals (k (globals p)) p)
  | EnterMain => Some (set_phase Main p)
  end.

Fixpoint run_free (ls : list Label) (p : Process) : option Process :=
  match ls with
  | [] => Some p
  | l :: ls' =>
      match step_free l p with
      | Some p' => run_free ls' p'
      | None => None
      end
  end.

(** [p] with another value and another access history of the flag. *)
Definition with_flag (b : option bool) (h : list Access) (p : Process)
  : Process :=
  mkProcess _ (globals p) b (phase p) (calls p) h.

(** The state of the shim after [n] completed runs of the
    initialiser: [n] registration sequences in the call history, [n]
    writes of [true] to the flag. *)
Definition registered_times (n : nat) (p : Process) : Prop :=
  calls p = concat (replicate n [mkCall _ registerAllDialects [];
                                 mkCall _ registerAllPasses []]) /\
  flag_accesses p = replicate n (FlagWrite true) /\
  auto_init p = match n with 0 => None | _ => Some true end.
End Shim.

(** ** Contract of the entry points

    What the shim achieves on the registries is what the entry points
    achieve; the file adds no check of its own.  The bodies of
    [registerAllDialects] and [registerAllPasses] are not in this file,
    so what they do is stated here as a contract, in the words of the
    specification; each theorem names the parts it relies on. *)

Section Contract.
Context `{F : Framework}.

(** Modelled from the spec: the body of the entry point [f] is
    missing; "the two registration calls are assumed to run to
    completion synchronously". *)
Definition returns (f : Callee) : Prop :=
  forall g, is_Some (extern f [] g).

(** Modelled from the spec: the body of [registerAllDialects] is
    missing; it is the "register all known dialects" entry point, after
    which the registry holds "all built-ins the linked version of the
    framework defines". *)
Definition registers_all_dialects : Prop :=
  forall g r g',
    extern registerAllDialects [] g = Some (r, g') ->
    dom allDialects ⊆ dom (dialectRegistry g').

(** Modelled from the spec: the body of [registerAllPasses] is
    missing; likewise for the pass registry. *)
Definition registers_all_passes : Prop :=
  forall g r g',
    extern registerAllPasses [] g = Some (r, g') ->
    dom allPasses ⊆ dom (passRegistry g').

(** Modelled from the spec: the body of the entry point [f] is
    missing; registries are "populated by registration calls", [f]
    removes no dialect. *)
Definition keeps_dialects (f : Callee) : Prop :=
  forall g r g',
    extern f [] g = Some (r, g') ->
    dom (dialectRegistry g) ⊆ dom (dialectRegistry g').

(** Modelled from the spec: the catalogues of built-ins are missing;
    querying either registry after start-up "returns a non-empty set",
    so the linked version defines at least one dialect and one pass. *)
Definition catalogues_nonempty : Prop :=
  allDialects <> ∅ /\ allPasses <> ∅.

(** Modelled from the spec: the bodies of both entry points are
    missing; their effect is the "global mutation of the two external
    registries; no other state is touched".  [preserves obs]: neither
    entry point changes what [obs] observes of the globals. *)
Definition preserves {X : Type} (obs : Globals -> X) : Prop :=
  forall f g r g', extern f [] g = Some (r, g') -> obs g' = obs g.


(** Both entry points return when called in sequence from [p]. *)
Definition entry_points_return (p : Process) : bool :=
  match extern registerAllDialects [] (globals p) with
  | Some (_, g1) =>
      match extern registerAllPasses [] g1 with
      | Some _ => true
      | None => false
      end
  | None => false
  end.

Definition calls_to (f : Callee) (cs : list Call) : nat :=
  length (filter (fun c => Callee_eqb (callee c) f = true) cs).
End Contract.


(** Two frameworks that differ at most in the statuses handed back. *)
Definition same_effects `{T : Types} (F1 F2 : Framework) : Prop :=
  forall f args g,
    snd <$> @extern T F1 f args g = snd <$> @extern T F2 f args g.

(** ** A small framework to run the definitions on *)

Module Sample.
Definition types : Types :=
  {| Value := nat; Status := bool; Ambient := nat;
     DialectFactory := nat; PassFactory := nat |}.

Definition builtinDialects : gmap string nat :=
  {[ "std"%string := 1; "llvm"%string := 2 ]}.

Definition builtinPasses : gmap string nat :=
  {[ "cse"%string := 1; "canonicalize"%string := 2 ]}.

(** Registration keeps an entry that is there already (the map union
    is left-biased); [status] is what both entry points hand back. *)
Definition register (f : Callee) (g : @Globals types) : @Globals types :=
  match f with
  | registerAllDialects =>
      @mkGlobals types (dialectRegistry g ∪ builtinDialects)
                 (passRegistry g) (ambient g)
  | registerAllPasses =>
      @mkGlobals types (dialectRegistry g)
                 (passRegistry g ∪ builtinPasses) (ambient g)
  end.

Definition framework (status : bool) : @Framework types :=
  {| extern := fun f args g =>
       match args with
       | [] => Some (status, register f g)
       | _ :: _ => None
       end;
     allDialects := builtinDialects;
     allPasses := builtinPasses |}.

Definition empty : @Globals types := @mkGlobals types ∅ ∅ 7.

(** Code of another translation unit: registers a dialect of its own
    and bumps a counter. *)
Definition other (g : @Globals types) : @Globals types :=
  @mkGlobals types (<[ "toy"%string := 9 ]> (dialectRegistry g))
             (passRegistry g) (S (ambient g)).

(** A schedule: foreign start-up code, the initialiser of this file,
    more foreign start-up code, [main], user code. *)
Definition schedule : list (@Label types) :=
  [Foreign other; RunStaticInit; Foreign other; EnterMain; Foreign other].

Definition after_schedule : @Process types :=
  match @run types (framework true) schedule (boot empty) with
  | Some p => p
  | None => boot empty
  end.



(** A framework whose pass registration refuses a pass that is
    registered already. *)
Definition strict : @Framework types :=
  {| extern := fun f args g =>
       match args, f with
       | [], registerAllDialects => Some (true, register f g)
       | [], registerAllPasses =>
           if bool_decide (dom builtinPasses ∩ dom (passRegistry g)
                           = (∅ : gset string))
           then Some (true, register f g)
           else None
       | _ :: _, _ => None
       end;
     allDialects := builtinDialects;
     allPasses := builtinPasses |}.



(** The object is loaded after [main] has started and the program has
    run for a while. *)
Definition late_schedule : list (@Label types) :=
  [EnterMain; Foreign other].

Definition before_late_init : @Process types :=
  match @run_free types (framework true) late_schedule (boot empty) with
  | Some p => p
  | None => boot empty
  end.

Definition after_late_init : @Process types :=
  final (@static_init types (framework true) before_late_init).

(** The schedule above in two parts, up to the initialiser and after
    it. *)
Definition schedule_to_init : list (@Label types) :=
  [Foreign other; RunStaticInit].

Definition schedule_from_init : list (@Label types) :=
  [Foreign other; EnterMain; Foreign other].

Definition after_init : @Process types :=
  match @run_free types (framework true) schedule_to_init (boot empty)
  with
  | Some p => p
  | None => boot empty
  end.
End Sample.

(** ** Vocabulary for whole executions *)

Section Conduct.
Context `{F : Framework}.

(** Both catalogues are registered in [g]. *)
Definition populated (g : Globals) : Prop :=
  dom allDialects ⊆ dom (dialectRegistry g) /\
  dom allPasses ⊆ dom (passRegistry g).

(** Code that registers but never unregisters. *)
Definition grows (k : Globals -> Globals) : Prop :=
  forall g,
    dom (dialectRegistry g) ⊆ dom (dialectRegistry (k g)) /\
    dom (passRegistry g) ⊆ dom (passRegistry (k g)).

Definition well_behaved (l : Label) : Prop :=
  match l with
  | Foreign k => grows k
  | _ => True
  end.

(** The globals after running foreign code [ks], first to last. *)
Definition run_foreign (ks : list (Globals -> Globals)) (g : Globals)
  : Globals :=
  foldl (fun g k => k g) g ks.

(** The foreign code of a schedule, in order. *)
Definition foreign_part (ls : list Label) : list (Globals -> Globals) :=
  omap (fun l => match l with Foreign k => Some k | _ => None end) ls.

(** A whole execution: foreign start-up code, the initialiser of this
    file, more foreign start-up code, the entry into [main], and the
    program. *)
Definition execution (before between after : list (Globals -> Globals))
  : list Label :=
  (Foreign <$> before) ++ [RunStaticInit] ++
  (Foreign <$> between) ++ [EnterMain] ++ (Foreign <$> after).
End Conduct.

(** A framework one of whose entry points takes the process down. *)
Module Faulty.
Definition framework (which : Callee) : @Framework Sample.types :=
  {| extern := fun f args g =>
       match args with
       | [] =>
           if Callee_eqb f which then None
           else Some (true, Sample.register f g)
       | _ :: _ => None
       end;
     allDialects := Sample.builtinDialects;
     allPasses := Sample.builtinPasses |}.

Definition schedule : list (@Label Sample.types) :=
  [Foreign Sample.other; Foreign Sample.other].

Definition after_schedule : @Process Sample.types :=
  match @run_free Sample.types (framework registerAllDialects) schedule
                  (boot Sample.empty) with
  | Some p => p
  | None => boot Sample.empty
  end.
End Faulty.

(** ** Properties of the initialiser *)

Section Initialiser.
Context `{F : Framework}.

Local Abbreviation D := (mkCall _ registerAllDialects []).
Local Abbreviation P := (mkCall _ registerAllPasses []).

(** The three ways the initialiser can go. *)
Lemma static_init_unfold (p : Process) :
  static_init p =
  match extern registerAllDialects [] (globals p) with
  | None =>
      Aborted (mkProcess _ (globals p) (auto_init p) (phase p)
                         (calls p ++ [D]) (flag_accesses p))
  | Some (_, g1) =>
      match extern registerAllPasses [] g1 with
      | None =>
          Aborted (mkProcess _ g1 (auto_init p) (phase p)
                             (calls p ++ [D; P]) (flag_accesses p))
      | Some (_, g2) =>
          Done tt (mkProcess _ g2 (Some true) (phase p)
                             (calls p ++ [D; P])
                             (flag_accesses p ++ [FlagWrite true]))
      end
  end.
Proof.
  unfold static_init, auto_init_lambda, bind, call, ret, store_auto_init,
    log_call, set_globals.
  cbn. destruct (extern registerAllDialects [] (globals p)) as [[r1 g1]|];
    cbn; [|reflexivity].
  destruct (extern registerAllPasses [] g1) as [[r2 g2]|]; cbn;
    rewrite <- app_assoc; reflexivity.
Qed.

Lemma auto_init_lambda_unfold (p : Process) :
  auto_init_lambda p =
  match extern registerAllDialects [] (globals p) with
  | None =>
      Aborted (mkProcess _ (globals p) (auto_init p) (phase p)
                         (calls p ++ [D]) (flag_accesses p))
  | Some (_, g1) =>
      match extern registerAllPasses [] g1 with
      | None =>
          Aborted (mkProcess _ g1 (auto_init p) (phase p)
                             (calls p ++ [D; P]) (flag_accesses p))
      | Some (_, g2) =>
          Done true (mkProcess _ g2 (auto_init p) (phase p)
                               (calls p ++ [D; P]) (flag_accesses p))
      end
  end.
Proof.
  unfold auto_init_lambda, bind, call, ret, log_call, set_globals. cbn.
  destruct (extern registerAllDialects [] (globals p)) as [[r1 g1]|];
    cbn; [|reflexivity].
  destruct (extern registerAllPasses [] g1) as [[r2 g2]|]; cbn;
    rewrite <- app_assoc; reflexivity.
Qed.

Lemma calls_to_app (f : Callee) (cs ds : list Call) :
  calls_to f (cs ++ ds) = calls_to f cs + calls_to f ds.
Proof. unfold calls_to. rewrite filter_app, length_app. reflexivity. Qed.

(** C2. The initialiser invokes the two entry points in a fixed
    order, each once, and nothing else.  When it completes,
    [registerAllDialects] was applied to the globals it started from,
    [registerAllPasses] to the globals that call left, the globals it
    ends with are those the second call returned, and exactly these
    two calls were added to the call history.  When an entry point
    takes the process down, the calls made are a prefix of the
    sequence: only the first if [registerAllDialects] failed, both if
    it returned and [registerAllPasses] failed on what it left. *)
Theorem static_init_call_sequence (p : Process) :
  match static_init p with
  | Done _ p' =>
      exists r1 g1 r2,
        extern registerAllDialects [] (globals p) = Some (r1, g1) /\
        extern registerAllPasses [] g1 = Some (r2, globals p') /\
        calls p' = calls p ++ [D; P] /\
        calls_to registerAllDialects (calls p') =
          calls_to registerAllDialects (calls p) + 1 /\
        calls_to registerAllPasses (calls p') =
          calls_to registerAllPasses (calls p) + 1
  | Aborted p' =>
      (extern registerAllDialects [] (globals p) = None /\
       calls p' = calls p ++ [D]) \/
      (exists r1,
         extern registerAllDialects [] (globals p)
           = Some (r1, globals p') /\
         extern registerAllPasses [] (globals p') = None /\
         calls p' = calls p ++ [D; P])
  end.
Proof.
  rewrite static_init_unfold.
  destruct (extern registerAllDialects [] (globals p))
    as [[r1 g1]|] eqn:E1; [|left; split; reflexivity].
  destruct (extern registerAllPasses [] g1) as [[r2 g2]|] eqn:E2.
  - exists r1, g1, r2. cbn [calls globals]. rewrite !calls_to_app.
    repeat split; assumption || reflexivity.
  - right. exists r1. cbn [calls globals]. repeat split; assumption.
Qed.


(** C8, as amended. The shim has no guard of its own against a second
    run: after a completed run of the registration sequence, running
    it again calls [registerAllDialects] again, and the second run
    completes and leaves the globals as the first run left them
    exactly when the two entry points, called again in sequence on
    those globals, return and hand them back unchanged. *)
Theorem second_run_repeats_registration (p : Process) :
  match auto_init_lambda p with
  | Done _ p1 =>
      (exists new,
         calls (final (auto_init_lambda p1)) = calls p1 ++ D :: new) /\
      ((exists p2,
          auto_init_lambda p1 = Done true p2 /\
          globals p2 = globals p1) <->
       (exists r1 g1 r2,
          extern registerAllDialects [] (globals p1) = Some (r1, g1) /\
          extern registerAllPasses [] g1 = Some (r2, globals p1)))
  | Aborted _ => True
  end.
Proof.
  destruct (auto_init_lambda p) as [b p1|]; [|exact I].
  rewrite auto_init_lambda_unfold. split.
  - destruct (extern registerAllDialects [] (globals p1))
      as [[r1 g1]|]; [|exists []; reflexivity].
    destruct (extern registerAllPasses [] g1) as [[r2 g2]|];
      exists [P]; reflexivity.
  - destruct (extern registerAllDialects [] (globals p1))
      as [[r1 g1]|] eqn:E1.
    + destruct (extern registerAllPasses [] g1)
        as [[r2 g2]|] eqn:E2; split.
      * intros (p2 & [= <-] & Hg). cbn in Hg. subst g2.
        exists r1, g1, r2. split; [reflexivity | exact E2].
      * intros (s1 & h1 & s2 & [= _ <-] & H2).
        rewrite E2 in H2. injection H2 as _ ->.
        eexists. split; reflexivity.
      * intros (p2 & Hd & _). discriminate.
      * intros (s1 & h1 & s2 & [= _ <-] & H2).
        rewrite E2 in H2. discriminate.
    + split.
      * intros (p2 & Hd & _). discriminate.
      * intros (s1 & h1 & s2 & H1 & _). discriminate.
Qed.

(** C9. Whenever the initialiser completes, the flag holds [true],
    whatever the entry points returned or did to the globals; and it
    completes exactly when both entry points return. *)
Theorem auto_init_true_after_static_init (p : Process) :
  completed (static_init p) = entry_points_return p /\
  match static_init p with
  | Done _ p' => auto_init p' = Some true
  | Aborted p' => auto_init p' = auto_init p
  end.
Proof.
  rewrite static_init_unfold. unfold entry_points_return.
  destruct (extern registerAllDialects [] (globals p)) as [[r1 g1]|];
    [|split; reflexivity].
  destruct (extern registerAllPasses [] g1) as [[r2 g2]|];
    split; reflexivity.
Qed.

(** C5. Whatever part of the globals both entry points leave alone,
    the initialiser leaves alone; of the process state outside the
    globals it changes the flag and nothing else (the two history
    variables apart). *)
Theorem static_init_frame {X : Type} (obs : Globals -> X) :
  preserves obs ->
  forall p,
    obs (globals (final (static_init p))) = obs (globals p) /\
    phase (final (static_init p)) = phase p.
Proof.
  intros Hobs p. rewrite static_init_unfold.
  destruct (extern registerAllDialects [] (globals p))
    as [[r1 g1]|] eqn:E1; [|split; reflexivity].
  pose proof (Hobs _ _ _ _ E1) as H1.
  destruct (extern registerAllPasses [] g1) as [[r2 g2]|] eqn:E2;
    cbn; [|split; [exact H1 | reflexivity]].
  pose proof (Hobs _ _ _ _ E2) as H2.
  split; [congruence | reflexivity].
Qed.

(** C1. Under the contract of the entry points (both return, each
    registers its catalogue, pass registration removes no dialect,
    the catalogues are not empty): from any start-up state in which
    the flag is not initialised yet, the initialiser runs to
    completion, and in the state it leaves, which is still before
    [main], the dialect registry holds every built-in dialect, the
    pass registry every built-in pass, and neither is empty. *)
Theorem registries_populated_after_static_init :
  returns registerAllDialects ->
  returns registerAllPasses ->
  registers_all_dialects ->
  registers_all_passes ->
  keeps_dialects registerAllPasses ->
  catalogues_nonempty ->
  forall p,
    phase p = Startup ->
    auto_init p = None ->
    exists p',
      step RunStaticInit p = Some p' /\
      phase p' = Startup /\
      shim_state p' = Registered /\
      dom allDialects ⊆ dom (dialectRegistry (globals p')) /\
      dom allPasses ⊆ dom (passRegistry (globals p')) /\
      dialectRegistry (globals p') <> ∅ /\
      passRegistry (globals p') <> ∅.
Proof.
  intros HrD HrP HD HP Hkeep [HneD HneP] p Hph Hflag.
  unfold step. rewrite Hph, Hflag, static_init_unfold.
  destruct (HrD (globals p)) as [[r1 g1] E1]. rewrite E1.
  destruct (HrP g1) as [[r2 g2] E2]. rewrite E2.
  pose proof (HD _ _ _ E1) as H1.
  pose proof (HP _ _ _ E2) as H2.
  pose proof (Hkeep _ _ _ E2) as H3.
  assert (HsubD : dom allDialects ⊆ dom (dialectRegistry g2))
    by (etrans; eassumption).
  eexists. split; [reflexivity|]. cbn.
  repeat split; try assumption.
  - intros Hempty. apply HneD. apply dom_empty_iff_L.
    rewrite Hempty, dom_empty_L in HsubD. set_solver.
  - intros Hempty. apply HneP. apply dom_empty_iff_L.
    rewrite Hempty, dom_empty_L in H2. set_solver.
Qed.

End Initialiser.

(** C6. The lambda reports nothing: it looks at no status (two
    frameworks that differ only in the statuses they hand back give the
    same run), it stops early only when an entry point takes the
    process down (no check of its own), and the value it returns is
    [true] whenever it returns. *)
Theorem auto_init_lambda_surfaces_no_error `{T : Types}
    (F1 F2 : Framework) :
  same_effects F1 F2 ->
  forall p,
    @auto_init_lambda T F1 p = @auto_init_lambda T F2 p /\
    completed (@auto_init_lambda T F1 p) = @entry_points_return T F1 p /\
    match @auto_init_lambda T F1 p with
    | Done b _ => b = true
    | Aborted _ => True
    end.
Proof.
  intros Hsame p. rewrite !auto_init_lambda_unfold.
  unfold entry_points_return.
  pose proof (Hsame registerAllDialects [] (globals p)) as H1.
  destruct (@extern T F1 registerAllDialects [] (globals p))
    as [[r1 g1]|],
    (@extern T F2 registerAllDialects [] (globals p)) as [[s1 h1]|];
    cbn in H1; try discriminate; [|repeat split].
  injection H1 as ->.
  pose proof (Hsame registerAllPasses [] h1) as H2.
  destruct (@extern T F1 registerAllPasses [] h1) as [[r2 g2]|],
    (@extern T F2 registerAllPasses [] h1) as [[s2 h2]|];
    cbn in H2; try discriminate; [|repeat split].
  injection H2 as ->. repeat split.
Qed.


(** ** Properties of the life cycle *)

Section Lifecycle.
Context `{F : Framework}.

Local Abbreviation D := (mkCall _ registerAllDialects []).
Local Abbreviation P := (mkCall _ registerAllPasses []).

Lemma boot_invariant (g : Globals) :
  lifecycle_invariant (boot g) /\ flag_count (boot g) = 0.
Proof. repeat split. Qed.

Lemma step_invariant (l : Label) (p p' : Process) :
  step l p = Some p' ->
  lifecycle_invariant p ->
  lifecycle_invariant p' /\
  flag_count p' = flag_count p + (if is_RunStaticInit l then 1 else 0).
Proof.
  unfold lifecycle_invariant, flag_count.
  destruct l as [|k|]; cbn [step is_RunStaticInit].
  - destruct (phase p) eqn:Hph; [|discriminate].
    destruct (auto_init p) eqn:Hflag; [discriminate|].
    rewrite static_init_unfold.
    destruct (extern registerAllDialects [] (globals p))
      as [[r1 g1]|]; [|discriminate].
    destruct (extern registerAllPasses [] g1) as [[r2 g2]|];
      [|discriminate].
    intros [= <-] (_ & Hc & Ha). cbn. rewrite Hc, Ha. auto.
  - intros [= <-]. cbn. destruct (auto_init p); intros Hinv; split;
      try exact Hinv; lia.
  - destruct (phase p) eqn:Hph; [|discriminate].
    destruct (auto_init p) eqn:Hflag; [|discriminate].
    intros [= <-]. cbn. rewrite Hflag. auto.
Qed.

Lemma run_invariant (ls : list Label) :
  forall p p',
    run ls p = Some p' ->
    lifecycle_invariant p ->
    lifecycle_invariant p' /\
    flag_count p' = flag_count p + init_count ls.
Proof.
  induction ls as [|l ls IH]; intros p p'; cbn [run init_count].
  - intros [= <-] Hinv. split; [exact Hinv | lia].
  - destruct (step l p) as [q|] eqn:Hstep; [|discriminate].
    intros Hrun Hinv.
    destruct (step_invariant _ _ _ Hstep Hinv) as [Hq Hn].
    destruct (IH _ _ Hrun Hq) as [Hp' Hm].
    split; [exact Hp' | lia].
Qed.

Lemma reachable_facts (g : Globals) (ls : list Label) (p : Process) :
  run ls (boot g) = Some p ->
  lifecycle_invariant p /\ flag_count p = init_count ls.
Proof.
  intros Hrun.
  destruct (boot_invariant g) as [H0 Hn].
  destruct (run_invariant _ _ _ Hrun H0) as [Hp Hm].
  split; [exact Hp | lia].
Qed.

End Lifecycle.

(** ** Properties of the life cycle the file alone settles *)

Section FreeLifecycle.
Context `{F : Framework}.

Local Abbreviation D := (mkCall _ registerAllDialects []).
Local Abbreviation P := (mkCall _ registerAllPasses []).

(** Every execution under the start-up rules is an execution without
    them. *)
Lemma run_is_run_free (ls : list Label) :
  forall p p', run ls p = Some p' -> run_free ls p = Some p'.
Proof.
  induction ls as [|l ls IH]; intros p p'; cbn [run run_free];
    [auto|].
  destruct (step l p) as [q|] eqn:Hstep; [|discriminate].
  assert (Hfree : step_free l p = Some q).
  { destruct l as [|k|]; cbn [step step_free] in *.
    - destruct (phase p); [|discriminate].
      destruct (auto_init p); [discriminate | exact Hstep].
    - exact Hstep.
    - destruct (phase p); [|discriminate].
      destruct (auto_init p); [exact Hstep | discriminate]. }
  rewrite Hfree. apply IH.
Qed.

Lemma run_free_app (ls1 ls2 : list Label) :
  forall p,
    run_free (ls1 ++ ls2) p =
    match run_free ls1 p with
    | Some q => run_free ls2 q
    | None => None
    end.
Proof.
  induction ls1 as [|l ls1 IH]; intros p; cbn [run_free app];
    [reflexivity|].
  destruct (step_free l p) as [q|]; [apply IH | reflexivity].
Qed.

Lemma init_count_app (ls1 ls2 : list Label) :
  init_count (ls1 ++ ls2) = init_count ls1 + init_count ls2.
Proof.
  induction ls1 as [|l ls1 IH]; cbn [init_count app]; [reflexivity|].
  rewrite IH. lia.
Qed.

Lemma concat_replicate_end {A : Type} (n : nat) (x : list A) :
  concat (replicate (n + 1) x) = concat (replicate n x) ++ x.
Proof.
  induction n as [|n IH]; cbn.
  - rewrite app_nil_r. reflexivity.
  - rewrite IH, app_assoc. reflexivity.
Qed.

Lemma replicate_end {A : Type} (n : nat) (x : A) :
  replicate (n + 1) x = replicate n x ++ [x].
Proof.
  induction n as [|n IH]; cbn; [reflexivity|].
  rewrite IH. reflexivity.
Qed.

Lemma calls_to_sequences (f : Callee) (n : nat) :
  calls_to f (concat (replicate n [D; P])) = n.
Proof.
  induction n as [|n IH]; [reflexivity|].
  change (concat (replicate (S n) [D; P]))
    with ([D; P] ++ concat (replicate n [D; P])).
  rewrite calls_to_app, IH. destruct f; reflexivity.
Qed.

Lemma step_free_counts (l : Label) (n : nat) (p p' : Process) :
  registered_times n p ->
  step_free l p = Some p' ->
  registered_times (n + (if is_RunStaticInit l then 1 else 0)) p'.
Proof.
  intros (Hc & Ha & Hf).
  destruct l as [|k|]; cbn [step_free is_RunStaticInit].
  - rewrite static_init_unfold.
    destruct (extern registerAllDialects [] (globals p))
      as [[r1 g1]|]; [|discriminate].
    destruct (extern registerAllPasses [] g1) as [[r2 g2]|];
      [|discriminate].
    intros [= <-]. unfold registered_times. cbn.
    rewrite Hc, Ha, concat_replicate_end, replicate_end.
    repeat split. rewrite Nat.add_1_r. reflexivity.
  - intros [= <-]. rewrite Nat.add_0_r. repeat split; assumption.
  - intros [= <-]. rewrite Nat.add_0_r. repeat split; assumption.
Qed.

Lemma run_free_counts (ls : list Label) :
  forall n p p',
    registered_times n p ->
    run_free ls p = Some p' ->
    registered_times (n + init_count ls) p'.
Proof.
  induction ls as [|l ls IH]; intros n p p' Hn;
    cbn [run_free init_count].
  - intros [= <-]. rewrite Nat.add_0_r. exact Hn.
  - destruct (step_free l p) as [q|] eqn:Hstep; [|discriminate].
    intros Hrun. rewrite Nat.add_assoc.
    exact (IH _ _ _ (step_free_counts _ _ _ _ Hn Hstep) Hrun).
Qed.

(** Whatever the schedule, the shim has registered as often as its
    initialiser was run. *)
Lemma run_free_from_boot (g : Globals) (ls : list Label) (p : Process) :
  run_free ls (boot g) = Some p ->
  registered_times (init_count ls) p.
Proof.
  intros Hrun.
  assert (H0 : registered_times 0 (boot g)) by (repeat split).
  exact (run_free_counts _ _ _ _ H0 Hrun).
Qed.

(** Where the initialiser is not run, only foreign code changes the
    globals. *)
Lemma run_free_foreign (ls : list Label) :
  forall p p',
    init_count ls = 0 ->
    run_free ls p = Some p' ->
    globals p' = run_foreign (foreign_part ls) (globals p).
Proof.
  induction ls as [|l ls IH]; intros p p'; cbn [init_count run_free].
  - intros _ [= <-]. reflexivity.
  - destruct l as [|k|]; cbn [is_RunStaticInit step_free];
      intros Hn Hrun; [lia | |];
      rewrite (IH _ _ Hn Hrun); reflexivity.
Qed.

(** The initialiser does not look at the flag: the value and the
    access history the flag had before are passed through, or
    overwritten, unread. *)
Lemma static_init_ignores_flag
    (b : option bool) (h : list Access) (p : Process) :
  static_init (with_flag b h p) =
  match static_init p with
  | Done u p' => Done u (with_flag (Some true) (h ++ [FlagWrite true]) p')
  | Aborted p' => Aborted (with_flag b h p')
  end.
Proof.
  rewrite !static_init_unfold. unfold with_flag. cbn.
  destruct (extern registerAllDialects [] (globals p))
    as [[r1 g1]|]; [|reflexivity].
  destruct (extern registerAllPasses [] g1) as [[r2 g2]|]; reflexivity.
Qed.

(** C3. In every execution (start-up rules or not) both entry points
    have been called from this file exactly as often as the
    initialiser was run, and the shim is [Registered] exactly when it
    was run; once [Registered] it stays [Registered] in every later
    state.  So in a process that links the file once, where the
    initialiser is run at most once, the registration happens at most
    once: the call history is empty or the one registration sequence,
    and after the transition to [Registered] there is no further
    registration call and no further run of the initialiser, and
    whatever happens to the globals from then on is the doing of
    foreign code. *)
Theorem registration_at_most_once
    (g : Globals) (ls1 ls2 : list Label) (q p : Process) :
  run_free ls1 (boot g) = Some q ->
  run_free ls2 q = Some p ->
  calls_to registerAllDialects (calls p) = init_count (ls1 ++ ls2) /\
  calls_to registerAllPasses (calls p) = init_count (ls1 ++ ls2) /\
  shim_state p =
    match init_count (ls1 ++ ls2) with
    | 0 => Unregistered
    | _ => Registered
    end /\
  (shim_state q = Registered -> shim_state p = Registered) /\
  (init_count (ls1 ++ ls2) <= 1 ->
     calls p =
       match init_count (ls1 ++ ls2) with 0 => [] | _ => [D; P] end /\
     (shim_state q = Registered ->
        calls p = calls q /\
        init_count ls2 = 0 /\
        globals p = run_foreign (foreign_part ls2) (globals q))).
Proof.
  intros Hq Hp.
  assert (Hlater : shim_state q = Registered ->
                   init_count (ls1 ++ ls2) <= 1 ->
                   globals p = run_foreign (foreign_part ls2) (globals q)).
  { intros Hreg Hone. apply run_free_foreign; [|exact Hp].
    destruct (run_free_from_boot _ _ _ Hq) as (_ & _ & Hfq).
    unfold shim_state in Hreg. rewrite Hfq in Hreg.
    rewrite init_count_app in Hone.
    destruct (init_count ls1); [discriminate | lia]. }
  assert (Hrun : run_free (ls1 ++ ls2) (boot g) = Some p)
    by (rewrite run_free_app, Hq; exact Hp).
  destruct (run_free_from_boot _ _ _ Hq) as (Hcq & _ & Hfq).
  destruct (run_free_from_boot _ _ _ Hrun) as (Hcp & _ & Hfp).
  rewrite init_count_app in *.
  unfold shim_state. rewrite Hcp, Hfp, Hfq, Hcq, !calls_to_sequences.
  split; [reflexivity|]. split; [reflexivity|].
  split; [destruct (init_count ls1 + init_count ls2); reflexivity|].
  split.
  - destruct (init_count ls1) as [|n1]; [discriminate|]. reflexivity.
  - intros Hone. split.
    + destruct (init_count ls1) as [|[|n1]],
               (init_count ls2) as [|[|n2]];
        cbn in Hone |- *; try lia; reflexivity.
    + intros Hreg.
      assert (Hg : globals p
                   = run_foreign (foreign_part ls2) (globals q))
        by (apply Hlater;
            [unfold shim_state; rewrite Hfq; exact Hreg | exact Hone]).
      destruct (init_count ls1) as [|[|n1]],
               (init_count ls2) as [|[|n2]];
        cbn in Hone, Hreg |- *; try lia; try discriminate.
      repeat split; first [reflexivity | exact Hg].
Qed.

(** C4, as amended. The flag is written by the initialiser of this
    file and by nothing else, once per completed run, with [true], and
    it is never read: in every execution the accesses to the flag are
    one write of [true] for each run of the initialiser, so exactly
    one in a process that runs it once; no other step changes the flag
    or touches it; and the initialiser behaves the same whatever the
    flag held before.  When the write happens relative to [main] is
    settled by the loader, not by this file. *)
Theorem flag_written_once
    (g : Globals) (ls : list Label) (p : Process) :
  run_free ls (boot g) = Some p ->
  flag_accesses p = replicate (init_count ls) (FlagWrite true) /\
  auto_init p = match init_count ls with 0 => None | _ => Some true end /\
  (init_count ls = 1 -> flag_accesses p = [FlagWrite true]) /\
  (forall l p',
     is_RunStaticInit l = false ->
     step_free l p = Some p' ->
     auto_init p' = auto_init p /\ flag_accesses p' = flag_accesses p) /\
  (forall b h,
     static_init (with_flag b h p) =
     match static_init p with
     | Done u p' =>
         Done u (with_flag (Some true) (h ++ [FlagWrite true]) p')
     | Aborted p' => Aborted (with_flag b h p')
     end).
Proof.
  intros Hrun.
  destruct (run_free_from_boot _ _ _ Hrun) as (_ & Ha & Hf).
  split; [exact Ha|]. split; [exact Hf|]. split.
  { intros Hone. rewrite Ha, Hone. reflexivity. }
  split.
  - intros l p' Hl Hstep.
    destruct l as [|k|]; cbn [step_free is_RunStaticInit] in *;
      [discriminate | |]; injection Hstep as <-; split; reflexivity.
  - intros b h. apply static_init_ignores_flag.
Qed.
End FreeLifecycle.

(** ** The sample framework meets the contract *)

Section SampleFacts.
Import Sample.
Variable status : bool.

Local Abbreviation S := (framework status).

Lemma sample_returns (f : Callee) : @returns types S f.
Proof. intros g. eexists. reflexivity. Qed.

Lemma sample_registers_all_dialects : @registers_all_dialects types S.
Proof.
  intros g r g' Heq. cbn in Heq. injection Heq as Hr Hg. subst g'.
  cbn. rewrite dom_union_L. apply union_subseteq_r.
Qed.

Lemma sample_registers_all_passes : @registers_all_passes types S.
Proof.
  intros g r g' Heq. cbn in Heq. injection Heq as Hr Hg. subst g'.
  cbn. rewrite dom_union_L. apply union_subseteq_r.
Qed.

Lemma sample_keeps_dialects (f : Callee) : @keeps_dialects types S f.
Proof.
  intros g r g' Heq. cbn in Heq. injection Heq as Hr Hg. subst g'.
  destruct f; cbn; [|reflexivity].
  rewrite dom_union_L. apply union_subseteq_l.
Qed.

Lemma sample_catalogues_nonempty : @catalogues_nonempty types S.
Proof. split; apply insert_non_empty. Qed.

Lemma sample_preserves_ambient : @preserves types S _ ambient.
Proof.
  intros f g r g' Heq. cbn in Heq. injection Heq as Hr Hg. subst g'.
  destruct f; reflexivity.
Qed.

Lemma sample_same_effects :
  @same_effects types (framework true) (framework false).
Proof. intros f [|a args] g; reflexivity. Qed.
End SampleFacts.

(** ** The theorems at work on the sample framework *)

Section Witnesses.
Import Sample.

Local Abbreviation S := (framework true).

Lemma static_init_frame_witness :
  ambient (globals (final (@static_init types S (boot empty)))) = 7 /\
  phase (final (@static_init types S (boot empty))) = Startup.
Proof.
  apply (@static_init_frame types S _ ambient
           (sample_preserves_ambient true) (boot empty)).
Defined.

Lemma registries_populated_after_static_init_witness :
  exists p',
    @step types S RunStaticInit (boot empty) = Some p' /\
    phase p' = Startup /\
    shim_state p' = Registered /\
    dom builtinDialects ⊆ dom (dialectRegistry (globals p')) /\
    dom builtinPasses ⊆ dom (passRegistry (globals p')) /\
    dialectRegistry (globals p') <> ∅ /\
    passRegistry (globals p') <> ∅.
Proof.
  apply (@registries_populated_after_static_init types S
           (sample_returns true registerAllDialects)
           (sample_returns true registerAllPasses)
           (sample_registers_all_dialects true)
           (sample_registers_all_passes true)
           (sample_keeps_dialects true registerAllPasses)
           (sample_catalogues_nonempty true)
           (boot empty)); reflexivity.
Defined.

Lemma auto_init_lambda_surfaces_no_error_witness :
  @auto_init_lambda types (framework true) (boot empty) =
    @auto_init_lambda types (framework false) (boot empty) /\
  completed (@auto_init_lambda types (framework true) (boot empty)) =
    @entry_points_return types (framework true) (boot empty) /\
  match @auto_init_lambda types (framework true) (boot empty) with
  | Done b _ => b = true
  | Aborted _ => True
  end.
Proof.
  apply (@auto_init_lambda_surfaces_no_error types
           (framework true) (framework false)
           sample_same_effects (boot empty)).
Defined.






(** The strict framework registers both catalogues and removes
    nothing, as the contract asks. *)
Lemma strict_meets_contract :
  @registers_all_dialects types strict /\
  @registers_all_passes types strict /\
  @keeps_dialects types strict registerAllPasses.
Proof.
  split; [|split]; intros g r g' Heq; cbn in Heq.
  - injection Heq as _ <-. cbn. rewrite dom_union_L.
    apply union_subseteq_r.
  - case_bool_decide; [|discriminate].
    injection Heq as _ <-. cbn. rewrite dom_union_L.
    apply union_subseteq_r.
  - case_bool_decide; [|discriminate].
    injection Heq as _ <-. reflexivity.
Qed.

(** The claim of C8 as first stated fails: with a pass registry that
    refuses a duplicate, the first run of the sequence completes and
    the second one is taken down. *)
Lemma second_run_aborts_on_duplicate_pass :
  completed (@auto_init_lambda types strict (boot empty)) = true /\
  completed
    (@auto_init_lambda types strict
       (final (@auto_init_lambda types strict (boot empty)))) = false.
Proof. split; vm_compute; reflexivity. Qed.

Lemma registration_at_most_once_witness :
  calls_to registerAllDialects (calls after_schedule) = 1 /\
  calls_to registerAllPasses (calls after_schedule) = 1 /\
  shim_state after_schedule = Registered /\
  (shim_state after_init = Registered ->
     shim_state after_schedule = Registered) /\
  (init_count (schedule_to_init ++ schedule_from_init) <= 1 ->
     calls after_schedule = [mkCall _ registerAllDialects [];
                             mkCall _ registerAllPasses []] /\
     (shim_state after_init = Registered ->
        calls after_schedule = calls after_init /\
        init_count schedule_from_init = 0 /\
        globals after_schedule =
          run_foreign [other; other] (globals after_init))).
Proof.
  apply (@registration_at_most_once types S empty
           schedule_to_init schedule_from_init after_init
           after_schedule); reflexivity.
Defined.

Lemma flag_written_once_witness :
  flag_accesses after_schedule = [FlagWrite true] /\
  auto_init after_schedule = Some true /\
  (init_count schedule = 1 ->
     flag_accesses after_schedule = [FlagWrite true]) /\
  (forall l p',
     is_RunStaticInit l = false ->
     @step_free types S l after_schedule = Some p' ->
     auto_init p' = auto_init after_schedule /\
     flag_accesses p' = flag_accesses after_schedule) /\
  (forall b h,
     @static_init types S (with_flag b h after_schedule) =
     match @static_init types S after_schedule with
     | Done u p' =>
         Done u (with_flag (Some true) (h ++ [FlagWrite true]) p')
     | Aborted p' => Aborted (with_flag b h p')
     end).
Proof.
  apply (@flag_written_once types S empty schedule after_schedule).
  reflexivity.
Defined.

(** The claim of C4 as first stated fails: when the object is loaded
    after [main] has started, the one write to the flag happens in
    phase [Main], after code of the program has run. *)
Lemma flag_written_after_main :
  @run_free types S late_schedule (boot empty) = Some before_late_init /\
  @step_free types S RunStaticInit before_late_init
    = Some after_late_init /\
  phase before_late_init = Main /\
  ambient (globals before_late_init) = 8 /\
  flag_accesses before_late_init = [] /\
  auto_init before_late_init = None /\
  phase after_late_init = Main /\
  flag_accesses after_late_init = [FlagWrite true] /\
  auto_init after_late_init = Some true.
Proof. repeat split. Qed.
End Witnesses.

(** ** Properties of whole executions *)

Section Executions.
Context `{F : Framework}.

Local Abbreviation D := (mkCall _ registerAllDialects []).
Local Abbreviation P := (mkCall _ registerAllPasses []).

Lemma run_app (ls1 ls2 : list Label) :
  forall p,
    run (ls1 ++ ls2) p =
    match run ls1 p with
    | Some q => run ls2 q
    | None => None
    end.
Proof.
  induction ls1 as [|l ls1 IH]; intros p; cbn [run app]; [reflexivity|].
  destruct (step l p) as [q|]; [apply IH | reflexivity].
Qed.

Lemma run_foreign_steps (ks : list (Globals -> Globals)) :
  forall p,
    run (Foreign <$> ks) p =
    Some (set_globals (run_foreign ks (globals p)) p).
Proof.
  induction ks as [|k ks IH]; intros p; cbn.
  - destruct p; reflexivity.
  - rewrite IH. reflexivity.
Qed.

(** X4. Running the initialiser relates the globals before and after
    by any transitive relation that both entry points respect: what the
    two calls preserve step by step, the initialiser preserves. *)
Theorem static_init_respects (R : Globals -> Globals -> Prop) :
  (forall g1 g2 g3, R g1 g2 -> R g2 g3 -> R g1 g3) ->
  (forall f g r g', extern f [] g = Some (r, g') -> R g g') ->
  forall p p',
    static_init p = Done tt p' ->
    R (globals p) (globals p').
Proof.
  intros Htrans Hstep p p'. rewrite static_init_unfold.
  destruct (extern registerAllDialects [] (globals p))
    as [[r1 g1]|] eqn:E1; [|discriminate].
  destruct (extern registerAllPasses [] g1)
    as [[r2 g2]|] eqn:E2; [|discriminate].
  intros [= <-]. cbn.
  exact (Htrans _ _ _ (Hstep _ _ _ _ E1) (Hstep _ _ _ _ E2)).
Qed.

Lemma populated_step (l : Label) (p p' : Process) :
  registers_all_dialects ->
  registers_all_passes ->
  keeps_dialects registerAllPasses ->
  well_behaved l ->
  step l p = Some p' ->
  (shim_state p = Registered -> populated (globals p)) ->
  shim_state p' = Registered -> populated (globals p').
Proof.
  intros HD HP Hkeep Hl. unfold shim_state, populated.
  destruct l as [|k|]; cbn [step].
  - destruct (phase p); [|discriminate].
    destruct (auto_init p); [discriminate|].
    rewrite static_init_unfold.
    destruct (extern registerAllDialects [] (globals p))
      as [[r1 g1]|] eqn:E1; [|discriminate].
    destruct (extern registerAllPasses [] g1)
      as [[r2 g2]|] eqn:E2; [|discriminate].
    intros [= <-] _ _. cbn. split.
    + etrans; [exact (HD _ _ _ E1) | exact (Hkeep _ _ _ E2)].
    + exact (HP _ _ _ E2).
  - intros [= <-]. cbn. intros Hp Hreg.
    destruct (Hp Hreg) as [H1 H2].
    destruct (Hl (globals p)) as [G1 G2].
    split; etrans; eassumption.
  - destruct (phase p); [|discriminate].
    destruct (auto_init p) eqn:Hflag; [|discriminate].
    intros [= <-]. cbn. rewrite Hflag. auto.
Qed.

(** X1. Once the initialiser has run, both catalogues are registered and
    stay registered, in [main] too, as long as the other code of the
    process only ever adds to the registries. *)
Theorem builtins_stay_registered
    (g : Globals) (ls : list Label) (p : Process) :
  registers_all_dialects ->
  registers_all_passes ->
  keeps_dialects registerAllPasses ->
  Forall well_behaved ls ->
  run ls (boot g) = Some p ->
  (shim_state p = Registered -> populated (globals p)) /\
  (phase p = Main -> populated (globals p)).
Proof.
  intros HD HP Hkeep Hls Hrun.
  assert (Hreg : shim_state p = Registered -> populated (globals p)).
  { assert (H0 : shim_state (boot g) = Registered ->
                 populated (globals (boot g))) by discriminate.
    revert Hrun H0. generalize (boot g) as q.
    induction Hls as [|l ls Hl Hls IH]; intros q; cbn [run].
    - intros [= <-] H0. exact H0.
    - destruct (step l q) as [q'|] eqn:Hstep; [|discriminate].
      intros Hrun H0. apply (IH _ Hrun).
      exact (populated_step _ _ _ HD HP Hkeep Hl Hstep H0). }
  split; [exact Hreg|].
  intros Hmain. apply Hreg.
  destruct (reachable_facts _ _ _ Hrun) as [Hinv _].
  unfold lifecycle_invariant in Hinv. unfold shim_state.
  destruct (auto_init p); [reflexivity|].
  destruct Hinv as (Hph & _). congruence.
Qed.

(** X3. The shim has no error handling: when the entry points cannot
    both return from the state in which the initialiser is run, that
    run is the end of the process.  The initialiser does not complete,
    the flag is neither written nor touched, no schedule continues
    past that step, and [registerAllPasses] is called only if
    [registerAllDialects] returned. *)
Theorem failed_registration_is_fatal
    (g : Globals) (ls1 ls2 : list Label) (q : Process) :
  run_free ls1 (boot g) = Some q ->
  entry_points_return q = false ->
  run_free (ls1 ++ RunStaticInit :: ls2) (boot g) = None /\
  completed (static_init q) = false /\
  auto_init (final (static_init q)) = auto_init q /\
  flag_accesses (final (static_init q)) = flag_accesses q /\
  calls_to registerAllPasses (calls (final (static_init q))) =
    calls_to registerAllPasses (calls q) +
    match extern registerAllDialects [] (globals q) with
    | Some _ => 1
    | None => 0
    end.
Proof.
  intros Hq Hfail. rewrite run_free_app, Hq. cbn [run_free step_free].
  unfold entry_points_return in Hfail. rewrite static_init_unfold.
  destruct (extern registerAllDialects [] (globals q)) as [[r1 g1]|].
  - destruct (extern registerAllPasses [] g1) as [[r2 g2]|];
      [discriminate|].
    cbn [final completed auto_init flag_accesses calls].
    rewrite calls_to_app. repeat split.
  - cbn [final completed auto_init flag_accesses calls].
    rewrite calls_to_app. cbn. repeat split; lia.
Qed.

(** X2. When both entry points return, every execution of the shape
    "foreign start-up code, this initialiser, foreign start-up code,
    [main], program" runs through: the flag is [true], the two calls
    were made once each, and the globals are what the foreign code and
    the two entry points produce when applied in that order. *)
Theorem startup_reaches_main
    (g : Globals) (before between after : list (Globals -> Globals)) :
  returns registerAllDialects ->
  returns registerAllPasses ->
  exists p r1 g1 r2 g2,
    run (execution before between after) (boot g) = Some p /\
    phase p = Main /\
    auto_init p = Some true /\
    calls p = [D; P] /\
    extern registerAllDialects [] (run_foreign before g) = Some (r1, g1) /\
    extern registerAllPasses [] g1 = Some (r2, g2) /\
    globals p = run_foreign after (run_foreign between g2).
Proof.
  intros HrD HrP.
  destruct (HrD (run_foreign before g)) as [[r1 g1] E1].
  destruct (HrP g1) as [[r2 g2] E2].
  eexists _, r1, g1, r2, g2. unfold execution.
  rewrite run_app, run_foreign_steps. unfold boot, set_globals.
  cbn [app run step globals auto_init phase calls flag_accesses].
  rewrite static_init_unfold.
  cbn [globals auto_init phase calls flag_accesses]. rewrite E1, E2.
  rewrite run_app, run_foreign_steps. unfold set_globals.
  cbn [app run step globals auto_init phase calls flag_accesses].
  unfold set_phase.
  cbn [globals auto_init phase calls flag_accesses].
  rewrite run_foreign_steps. unfold set_globals.
  cbn [globals auto_init phase calls flag_accesses].
  repeat split; try reflexivity; assumption.
Qed.
End Executions.

(** ** Whole executions on the sample frameworks *)

Section ExecutionWitnesses.
Import Sample.

Local Abbreviation S := (framework true).

Lemma sample_other_grows : @grows types other.
Proof.
  intros g. split; cbn; [|reflexivity].
  rewrite dom_insert_L. apply union_subseteq_r.
Qed.

Lemma sample_schedule_well_behaved :
  Forall (@well_behaved types) schedule.
Proof.
  unfold schedule.
  do 5 (constructor; [first [exact sample_other_grows | exact I]|]).
  constructor.
Qed.

Lemma sample_dialects_order_trans (g1 g2 g3 : @Globals types) :
  dom (dialectRegistry g1) ⊆ dom (dialectRegistry g2) ->
  dom (dialectRegistry g2) ⊆ dom (dialectRegistry g3) ->
  dom (dialectRegistry g1) ⊆ dom (dialectRegistry g3).
Proof. intros H12 H23. etrans; eassumption. Qed.

Lemma builtins_stay_registered_witness :
  @populated types S (globals after_schedule).
Proof.
  apply (@builtins_stay_registered types S empty schedule after_schedule
           (sample_registers_all_dialects true)
           (sample_registers_all_passes true)
           (sample_keeps_dialects true registerAllPasses)
           sample_schedule_well_behaved eq_refl).
  reflexivity.
Defined.

Lemma startup_reaches_main_witness :
  exists p r1 g1 r2 g2,
    @run types S (execution [other] [other] [other]) (boot empty)
      = Some p /\
    phase p = Main /\
    auto_init p = Some true /\
    calls p = [mkCall _ registerAllDialects [];
               mkCall _ registerAllPasses []] /\
    @extern types S registerAllDialects [] (run_foreign [other] empty)
      = Some (r1, g1) /\
    @extern types S registerAllPasses [] g1 = Some (r2, g2) /\
    globals p = run_foreign [other] (run_foreign [other] g2).
Proof.
  apply (@startup_reaches_main types S empty [other] [other] [other]
           (sample_returns true registerAllDialects)
           (sample_returns true registerAllPasses)).
Defined.

Lemma failed_registration_is_fatal_witness :
  @run_free types (Faulty.framework registerAllDialects)
    (Faulty.schedule ++ RunStaticInit :: [EnterMain]) (boot empty)
    = None /\
  completed (@static_init types (Faulty.framework registerAllDialects)
               Faulty.after_schedule) = false /\
  auto_init (final (@static_init types
                      (Faulty.framework registerAllDialects)
                      Faulty.after_schedule)) = None /\
  flag_accesses (final (@static_init types
                          (Faulty.framework registerAllDialects)
                          Faulty.after_schedule)) = [] /\
  calls_to registerAllPasses
    (calls (final (@static_init types
                     (Faulty.framework registerAllDialects)
                     Faulty.after_schedule))) = 0.
Proof.
  apply (@failed_registration_is_fatal types
           (Faulty.framework registerAllDialects) empty
           Faulty.schedule [EnterMain] Faulty.after_schedule);
    reflexivity.
Defined.

Lemma static_init_respects_witness :
  dom (dialectRegistry (other empty))
    ⊆ dom (dialectRegistry
             (globals (final (@static_init types S
                                (boot (other empty)))))).
Proof.
  apply (@static_init_respects types S
           (fun g g' => dom (dialectRegistry g) ⊆ dom (dialectRegistry g'))
           sample_dialects_order_trans
           (fun f => sample_keeps_dialects true f)
           (boot (other empty))
           (final (@static_init types S (boot (other empty))))).
  reflexivity.
Defined.
End ExecutionWitnesses.

End mlir.
